(** * The agent server and the code executor of gemini-ai-gent

    A shallow embedding of the three programs of the repository:

    - the executor ([evalAndCaptureOutput] and its HTTP route), which
      redirects [console.log] / [console.error], filters the submitted
      text against a denylist, evaluates it and returns the captured
      output as [{stdout, stderr}];
    - the agent ([weatherTool], [jsExecutor], the [/generate] route);
    - the chat client ([sendMessage] of the [App] component).

    JavaScript values, strings and exceptions are modelled as far as the
    source inspects them; the evaluation of submitted text is a parameter
    [js_eval] giving, for a program text, the console calls it makes and
    how it ends. *)

From Stdlib Require Import String Ascii List ZArith Lia Bool.
From stdpp Require Import gmap strings list pretty.

Open Scope string_scope.
Open Scope list_scope.
Open Scope nat_scope.

(** ** JavaScript values and the string operations the source uses *)

Module JS.

(** The values that reach the code under study: request fields, console
    arguments, thrown values and array elements.  An [ErrorObj] is an
    object created by [new Error(message)] (or a subclass named [name]),
    whose [message] is a plain string property.  Other objects, among
    them objects whose [message] is an accessor, are outside the model. *)
Inductive value :=
| Undefined
| Null
| Bool (b : bool)
| Num (n : Z)
| Str (s : string)
| ErrorObj (name message : string).

(** The result of running a piece of code: it completes with a value or
    throws one. *)
Inductive completion (A : Type) :=
| Ret (a : A)
| Threw (e : value).
Arguments Ret {A} a.
Arguments Threw {A} e.

(** ToBoolean, as used by [!x] and [x || y]. *)
Definition truthy (v : value) : bool :=
  match v with
  | Undefined | Null => false
  | Bool b => b
  | Num n => negb (n =? 0)%Z
  | Str s => negb (String.eqb s "")
  | ErrorObj _ _ => true
  end.

(** [x || y] *)
Definition or_else (x y : value) : value := if truthy x then x else y.

(** ToString. [Error.prototype.toString] gives the name, the message, or
    both separated by a colon.  A [Num] is an integer of the range that
    JavaScript prints in plain decimal (HTTP statuses, small results). *)
Definition to_string (v : value) : string :=
  match v with
  | Undefined => "undefined"
  | Null => "null"
  | Bool true => "true"
  | Bool false => "false"
  | Num n => pretty n
  | Str s => s
  | ErrorObj name message =>
      if String.eqb name "" then message
      else if String.eqb message "" then name
      else name +:+ ": " +:+ message
  end.

(** The text [Array.prototype.join] uses for one element: [undefined] and
    [null] are rendered as the empty string. *)
Definition element_text (v : value) : string :=
  match v with
  | Undefined | Null => ""
  | _ => to_string v
  end.

(** [xs.join(sep)] *)
Fixpoint join (sep : string) (xs : list value) : string :=
  match xs with
  | [] => ""
  | [x] => element_text x
  | x :: rest => element_text x +:+ sep +:+ join sep rest
  end.

(** [s.includes(search)]: [search] occurs in [s] at some position. *)
Fixpoint includes (s search : string) : bool :=
  if String.prefix search s then true
  else match s with
       | EmptyString => false
       | String _ rest => includes rest search
       end.

(** [toLowerCase] on one code unit: the Latin capitals map to their small
    letters, every other code unit of the ASCII range is kept. *)
Definition lower_char (c : ascii) : ascii :=
  let n := nat_of_ascii c in
  if (65 <=? n) && (n <=? 90) then ascii_of_nat (n + 32) else c.

(** [s.toLowerCase()] *)
Fixpoint toLowerCase (s : string) : string :=
  match s with
  | EmptyString => EmptyString
  | String c rest => String (lower_char c) (toLowerCase rest)
  end.

(** Reading [error.message] on the values of the model: a property read
    on [undefined] or [null] throws a TypeError; a primitive has no such
    property; an error object yields its message. *)
Definition get_message (error : value) : completion value :=
  match error with
  | Undefined =>
      Threw (ErrorObj "TypeError"
               "Cannot read properties of undefined (reading 'message')")
  | Null =>
      Threw (ErrorObj "TypeError"
               "Cannot read properties of null (reading 'message')")
  | Bool _ | Num _ | Str _ => Ret Undefined
  | ErrorObj _ message => Ret (Str message)
  end.

(** The line feed, written '\n' in the source. *)
Definition newline : string := String (ascii_of_nat 10) EmptyString.

(** [new Error(message)] *)
Definition new_Error (message : string) : value := ErrorObj "Error" message.

End JS.

(** ** The code executor *)

Module Executor.
Import JS.

(** *** The process state an invocation reads and writes *)

Inductive channel := Out | Err.

(** What [console.log] or [console.error] currently is: the method the
    process started with, or the arrow function installed by invocation
    [inv], which pushes onto that invocation's [output] ([Out]) or
    [errorOutput] ([Err]) array. *)
Inductive writer :=
| Native (c : channel)
| Capture (inv : nat) (c : channel).

(** The global [console] object, the number of invocations started so far
    (each one creates its own two arrays and closures) and the lines that
    reached the real standard streams. *)
Record world := World {
  console_log : writer;
  console_error : writer;
  invocations : nat;
  process_stdout : list string;
  process_stderr : list string
}.

(** The two local arrays of one invocation. *)
Record frame := Frame {
  output : list value;
  errorOutput : list value
}.

(** The object [evalAndCaptureOutput] returns. *)
Record result := Result {
  stdout : string;
  stderr : string
}.

(** *** What evaluating a program text does *)

(** The programs of the model are those that act on the executor only
    by calling [console.log] and [console.error]: the calls a program
    makes, in order, and how it ends.  [Spin] is a program that never
    completes, such as an endless loop or a promise that is never
    settled.  Programs that assign the local variables of
    [evalAndCaptureOutput], use other console methods or the process
    streams, or change what later evaluations do, are outside the model. *)
Inductive behaviour :=
| Finish
| Throw (v : value)
| ConsoleLog (args : list value) (next : behaviour)
| ConsoleError (args : list value) (next : behaviour)
| Spin.

(** How the evaluation ended. *)
Inductive ending :=
| Normal
| Thrown (v : value).

Definition push (xs : list value) (x : value) : list value := xs ++ [x].

Definition set_console (w : world) (l e : writer) : world :=
  World l e (invocations w) (process_stdout w) (process_stderr w).

(** Calling a console method with [args] from inside invocation [me].
    The capturing closures push [args.join(' ')] onto the array they
    closed over; the arrays of an invocation other than [me] are not
    reachable from [me]'s result, so a push onto them leaves [me]'s frame
    as it is. *)
Definition call (wr : writer) (me : nat) (args : list value)
    (w : world) (f : frame) : world * frame :=
  let line := join " " args in
  match wr with
  | Native Out =>
      (World (console_log w) (console_error w) (invocations w)
             (process_stdout w ++ [line]) (process_stderr w), f)
  | Native Err =>
      (World (console_log w) (console_error w) (invocations w)
             (process_stdout w) (process_stderr w ++ [line]), f)
  | Capture inv Out =>
      if inv =? me then (w, Frame (push (output f) (Str line)) (errorOutput f))
      else (w, f)
  | Capture inv Err =>
      if inv =? me then (w, Frame (output f) (push (errorOutput f) (Str line)))
      else (w, f)
  end.

(** [steps] bounds how long the evaluation is observed: [None] means it
    has not completed within that many steps. *)
Fixpoint run (steps : nat) (me : nat) (b : behaviour) (w : world) (f : frame)
    : option ending * world * frame :=
  match steps with
  | 0 => (None, w, f)
  | S steps' =>
      match b with
      | Finish => (Some Normal, w, f)
      | Throw v => (Some (Thrown v), w, f)
      | ConsoleLog args next =>
          let '(w', f') := call (console_log w) me args w f in
          run steps' me next w' f'
      | ConsoleError args next =>
          let '(w', f') := call (console_error w) me args w f in
          run steps' me next w' f'
      | Spin => run steps' me Spin w f
      end
  end.

(** The four tests of the safety measure. *)
Definition dangerous (code : string) : bool :=
  includes code "process.exit" ||
  includes code "require(" ||
  includes code "import " ||
  includes code "eval(".

(** How a call of the async function is seen by its caller: the promise
    is fulfilled with a result, rejected with a thrown value, or not yet
    settled. *)
Inductive outcome :=
| Returned (r : result)
| Rejected (e : value)
| Pending.

Section Evaluation.

(** The engine's [eval] followed by [await]. *)
Variable js_eval : string -> behaviour.

(** The body of the [try] block. *)
Definition try_block (steps : nat) (me : nat) (code : string)
    (w : world) (f : frame) : option ending * world * frame :=
  if dangerous code
  then (Some (Thrown (new_Error "Potentially dangerous code detected")), w, f)
  else run steps me (js_eval code) w f.

(** The statements after the [try]/[catch]. *)
Definition restore_and_return (oldLog oldError : writer)
    (w : world) (f : frame) : outcome * world :=
  (Returned (Result (join newline (output f)) (join newline (errorOutput f))),
   set_console w oldLog oldError).

Definition evalAndCaptureOutput (steps : nat) (code : string) (w : world)
    : outcome * world :=
  let oldLog := console_log w in
  let oldError := console_error w in
  let me := invocations w in
  let f0 := Frame [] [] in
  let w1 := World (Capture me Out) (Capture me Err) (S me)
                  (process_stdout w) (process_stderr w) in
  match try_block steps me code w1 f0 with
  | (None, w2, _) => (Pending, w2)
  | (Some Normal, w2, f2) => restore_and_return oldLog oldError w2 f2
  | (Some (Thrown error), w2, f2) =>
      (* catch (error) { errorOutput.push(error.message); } *)
      match get_message error with
      | Threw e => (Rejected e, w2)
      | Ret m =>
          restore_and_return oldLog oldError w2
            (Frame (output f2) (push (errorOutput f2) m))
      end
  end.

End Evaluation.

(** The process as it starts: the console methods are the native ones. *)
Definition initial : world := World (Native Out) (Native Err) 0 [] [].

(** The behaviour ECMAScript gives to a few concrete program texts, used
    to run the executor on them.  Texts outside the table are given the
    behaviour of the empty program. *)
Definition sample_programs : list (string * behaviour) :=
  [ ("console.log('a'); console.log('b')",
       ConsoleLog [Str "a"] (ConsoleLog [Str "b"] Finish));
    ("console.log(15 * 37)",
       ConsoleLog [Num 555] Finish);
    ("console.log('x', 'y'); console.error('warn')",
       ConsoleLog [Str "x"; Str "y"] (ConsoleError [Str "warn"] Finish));
    ("console.log('partial'); throw new Error('boom')",
       ConsoleLog [Str "partial"] (Throw (new_Error "boom")));
    ("console.log('partial'); throw undefined",
       ConsoleLog [Str "partial"] (Throw Undefined));
    ("throw null",
       Throw Null);
    ("throw 'plain text'",
       Throw (Str "plain text"));
    ("for (;;) {}",
       Spin);
    ("console.log('tick'); while (true) {}",
       ConsoleLog [Str "tick"] Spin) ].

Fixpoint lookup_program (code : string) (table : list (string * behaviour))
    : option behaviour :=
  match table with
  | [] => None
  | (text, b) :: rest =>
      if String.eqb code text then Some b else lookup_program code rest
  end.

Definition sample_eval (code : string) : behaviour :=
  match lookup_program code sample_programs with
  | Some b => b
  | None => Finish
  end.

End Executor.

(** ** The HTTP route of the executor *)

Module ExecutorApi.
Import JS Executor.

(** The JSON bodies the two servers send. *)
Inductive body :=
| ErrorBody (error : string)
| ResultBody (r : result)
| ContentBody (content : value)
| StatusBody (status : string).

(** What a route handler does with a request: it sends one response, or
    its promise is rejected without a response having been sent. *)
Inductive reply :=
| Respond (status : Z) (b : body)
| Unhandled (e : value).

Section Route.

Variable js_eval : string -> behaviour.

(** [evalAndCaptureOutput] on an argument that need not be a string:
    [code.includes] then throws a TypeError inside the [try] block, which
    the [catch] turns into the only line of the error buffer. *)
Definition includes_type_error (code : value) : string :=
  match code with
  | Undefined => "Cannot read properties of undefined (reading 'includes')"
  | Null => "Cannot read properties of null (reading 'includes')"
  | _ => "code.includes is not a function"
  end.

Definition evalAndCaptureOutput_value (steps : nat) (code : value) (w : world)
    : outcome * world :=
  match code with
  | Str s => evalAndCaptureOutput js_eval steps s w
  | _ =>
      (Returned (Result "" (includes_type_error code)),
       World (console_log w) (console_error w) (S (invocations w))
             (process_stdout w) (process_stderr w))
  end.

(** [app.post('/')] *)
Definition post_root (steps : nat) (code : value) (w : world)
    : option reply * world :=
  if negb (truthy code) then (Some (Respond 400 (ErrorBody "Code is required")), w)
  else
    match evalAndCaptureOutput_value steps code w with
    | (Returned r, w') => (Some (Respond 200 (ResultBody r)), w')
    | (Rejected error, w') =>
        match get_message error with
        | Ret m =>
            (Some (Respond 500
               (ResultBody (Result "" ("Execution error: " +:+ to_string m)))), w')
        | Threw e => (Some (Unhandled e), w')
        end
    | (Pending, w') => (None, w')
    end.

(** [app.get('/health')] *)
Definition get_health : reply := Respond 200 (StatusBody "OK").

End Route.

End ExecutorApi.

(** ** The agent: its tools and its chat route *)

Module Agent.
Import JS Executor ExecutorApi.

(** *** The weather tool *)

Definition weatherTool (query : string) : string :=
  if includes (toLowerCase query) "san francisco"
  then "It's 60 degrees and foggy."
  else "It's 90 degrees and sunny.".

(** *** The code-execution tool *)

(** What [response.json()] resolves to, or the message of the SyntaxError
    it is rejected with. *)
Inductive json_result :=
| Parsed (b : body)
| Unparsable (message : string).

(** What the [fetch] of the executor's address gives: a rejection with a
    TypeError when no response arrives, or a response with its status. *)
Inductive fetch_outcome :=
| NetworkFailure (message : string)
| HttpResponse (status : Z) (json : json_result).

(** [response.ok] *)
Definition response_ok (status : Z) : bool :=
  ((200 <=? status) && (status <=? 299))%Z.

(** The [try] block of the tool handler. *)
Definition jsExecutor_try (o : fetch_outcome) : completion body :=
  match o with
  | NetworkFailure message => Threw (ErrorObj "TypeError" message)
  | HttpResponse status json =>
      if negb (response_ok status)
      then Threw (new_Error ("HTTP error! status: " +:+ to_string (Num status)))
      else match json with
           | Parsed b => Ret b
           | Unparsable message => Threw (ErrorObj "SyntaxError" message)
           end
  end.

(** The [catch] block of the tool handler. *)
Definition jsExecutor_catch (error : value) : completion body :=
  match get_message error with
  | Ret m => Ret (ResultBody (Result "" ("Error executing code: " +:+ to_string m)))
  | Threw e => Threw e
  end.

Definition jsExecutor (o : fetch_outcome) : completion body :=
  match jsExecutor_try o with
  | Ret b => Ret b
  | Threw error => jsExecutor_catch error
  end.

(** *** The chat route *)

Record message := Message {
  role : string;
  content : value
}.

(** The fields the route reads from the request body; an absent field
    reads as [Undefined]. *)
Record request := Request {
  prompt : value;
  thread_id : value
}.

Section Chat.

(** The ReAct run of the agent on a thread: given the messages of the
    thread, the new input included, the messages it appends, or the
    value it throws. *)
Variable react : list message -> completion (list message).

(** Modelled from the spec: the conversation store, which the agent takes
    from the graph library's in-memory checkpointer.  A thread is keyed by
    its identifier, an unseen identifier has the empty history, and a run
    appends the input and then the messages of the run to the thread. *)
Definition history (store : gmap string (list message)) (thread : string)
    : list message :=
  match store !! thread with
  | Some ms => ms
  | None => []
  end.

Definition agent_invoke (input : list message) (thread : value)
    (store : gmap string (list message))
    : completion (list message) * gmap string (list message) :=
  let key := to_string thread in
  let seen := history store key ++ input in
  match react seen with
  | Ret new => (Ret (seen ++ new), <[key := seen ++ new]> store)
  | Threw e => (Threw e, <[key := seen]> store)
  end.

(** The thread identifier the route passes in [configurable]. *)
Definition thread_of (req : request) : value :=
  or_else (thread_id req) (Str "default").

(** [result.messages.at(-1)?.content] *)
Definition last_content (ms : list message) : value :=
  match last ms with
  | Some m => content m
  | None => Undefined
  end.

(** [app.post('/generate')] *)
Definition generate (req : request) (store : gmap string (list message))
    : reply * gmap string (list message) :=
  if negb (truthy (prompt req))
  then (Respond 400 (ErrorBody "Prompt is required"), store)
  else
    match agent_invoke [Message "user" (prompt req)] (thread_of req) store with
    | (Ret messages, store') =>
        (Respond 200
           (ContentBody (or_else (last_content messages)
                                 (Str "No response generated"))), store')
    | (Threw _, store') =>
        (Respond 500 (ErrorBody "Internal server error"), store')
    end.

End Chat.

End Agent.

(** ** The reasoning loop *)

Module Orchestrator.
Import JS Agent.

(** What the oracle answers in the Reason state. *)
Inductive decision :=
| FinalAnswer (text : string)
| ToolRequest (name : string) (args : value).

(** Modelled from the spec: the states of the per-request machine of the
    Agent Orchestrator, which the repository obtains from the graph
    library's prebuilt agent.  [Responded] is the terminal state Respond
    after the final answer has been appended and returned. *)
Inductive phase :=
| LoadHistory
| Reason
| Dispatch (name : string) (args : value)
| Responded (answer : string).

Record state := State {
  at_phase : phase;
  messages : list message;
  dispatched : nat
}.

(** Modelled from the spec: the final answer given when the cap on
    Reason-Dispatch cycles is exceeded. *)
Definition limit_reached : string := "Tool-call limit reached".

Section Loop.

Variable cap : nat.
Variable oracle : list message -> decision.
(** [ToolRegistry.invoke]: a tool failure is a result text too. *)
Variable invoke : string -> value -> string.
(** The history of the thread followed by the request's message. *)
Variable loaded : list message.

(** Modelled from the spec: one transition of the machine.  Reason asks
    the oracle; a tool request is dispatched while fewer than [cap]
    dispatches were made and otherwise answered with [limit_reached];
    Dispatch appends the invocation and its result with role [tool] and
    goes back to Reason; Respond appends the final answer. *)
Definition step (s : state) : state :=
  match at_phase s with
  | LoadHistory => State Reason loaded (dispatched s)
  | Reason =>
      match oracle (messages s) with
      | FinalAnswer text =>
          State (Responded text)
                (messages s ++ [Message "assistant" (Str text)]) (dispatched s)
      | ToolRequest name args =>
          if dispatched s <? cap
          then State (Dispatch name args) (messages s) (dispatched s)
          else State (Responded limit_reached)
                     (messages s ++ [Message "assistant" (Str limit_reached)])
                     (dispatched s)
      end
  | Dispatch name args =>
      State Reason
            (messages s ++ [Message "tool" (Str name);
                            Message "tool" (Str (invoke name args))])
            (S (dispatched s))
  | Responded _ => s
  end.

Fixpoint steps (n : nat) (s : state) : state :=
  match n with
  | 0 => s
  | S n' => steps n' (step s)
  end.

Definition start : state := State LoadHistory [] 0.

(** A dispatch is only ever pending while the cap has not been reached. *)
Definition within_cap (s : state) : Prop :=
  dispatched s <= cap /\
  match at_phase s with
  | Dispatch _ _ => dispatched s < cap
  | _ => True
  end.

(** The answer returned to the caller once the machine has responded. *)
Definition answer (s : state) : option string :=
  match at_phase s with
  | Responded a => Some a
  | _ => None
  end.

End Loop.

End Orchestrator.

(** ** Requests and responses between the three programs *)

Module Transport.
Import JS Executor ExecutorApi Agent.

(** Reading a field of a parsed JSON body; an absent field reads as
    [undefined]. *)
Definition field (o : gmap string value) (name : string) : value :=
  match o !! name with
  | Some v => v
  | None => Undefined
  end.

(** [const { prompt, thread_id } = req.body] *)
Definition read_generate (o : gmap string value) : request :=
  Request (field o "prompt") (field o "thread_id").

(** [const { code } = req.body] *)
Definition read_code (o : gmap string value) : value := field o "code".

(** [JSON.stringify({ code })] as the executor parses it. *)
Definition code_body (code : string) : gmap string value :=
  {[ "code" := Str code ]}.

(** [data.content] *)
Definition content_of (b : body) : value :=
  match b with
  | ContentBody c => c
  | _ => Undefined
  end.

Section Tool.

Variable js_eval : string -> behaviour.

(** The code-execution tool with the executor answering its request:
    [fetch] resolves with the status and the JSON body the route sent,
    and does not resolve while the route has not responded. *)
Definition jsExecutor_on_executor (steps : nat) (code : string) (w : world)
    : option (completion body) * world :=
  match post_root js_eval steps (read_code (code_body code)) w with
  | (Some (Respond status b), w') =>
      (Some (jsExecutor (HttpResponse status (Parsed b))), w')
  | (_, w') => (None, w')
  end.

End Tool.

End Transport.

(** ** The chat client *)

Module Client.
Import JS ExecutorApi Agent Transport.

(** The state of the [App] component. *)
Record app := App {
  messages : list message;
  inputValue : string;
  isLoading : bool;
  threadId : Z
}.

(** White space of the ASCII range: tab, line feed, vertical tab, form
    feed, carriage return and space.  The white space that [trim] strips
    beyond the ASCII range is outside the model. *)
Definition is_space (c : ascii) : bool :=
  let n := nat_of_ascii c in
  ((9 <=? n) && (n <=? 13)) || (n =? 32).

Fixpoint trimStart (s : string) : string :=
  match s with
  | EmptyString => EmptyString
  | String c rest => if is_space c then trimStart rest else s
  end.

Fixpoint trimEnd (s : string) : string :=
  match s with
  | EmptyString => EmptyString
  | String c rest =>
      let rest' := trimEnd rest in
      if is_space c && String.eqb rest' "" then EmptyString
      else String c rest'
  end.

(** [s.trim()] *)
Definition trim (s : string) : string := trimEnd (trimStart s).

(** The first half of [sendMessage], up to the [fetch]: [None] when the
    guard returns at once, otherwise the JSON body posted to [/generate]
    and the state while the answer is awaited. *)
Definition sendMessage_start (a : app) : option (gmap string value * app) :=
  if negb (truthy (Str (trim (inputValue a)))) || isLoading a then None
  else
    let userMessage := Message "user" (Str (inputValue a)) in
    Some ({[ "prompt" := Str (inputValue a); "threadId" := Num (threadId a) ]},
          App (messages a ++ [userMessage]) "" true (threadId a)).

(** The [try] block after the [fetch]. *)
Definition sendMessage_try (o : fetch_outcome) : completion message :=
  match o with
  | NetworkFailure reason => Threw (ErrorObj "TypeError" reason)
  | HttpResponse status json =>
      if negb (response_ok status)
      then Threw (new_Error ("HTTP error! status: " +:+ to_string (Num status)))
      else match json with
           | Parsed data =>
               Ret (Message "assistant"
                      (or_else (content_of data) (Str "No response received")))
           | Unparsable reason => Threw (ErrorObj "SyntaxError" reason)
           end
  end.

(** The second half of [sendMessage]: [try], [catch] and [finally]. *)
Definition sendMessage_finish (o : fetch_outcome) (a : app) : app :=
  let appended :=
    match sendMessage_try o with
    | Ret assistantMessage => [assistantMessage]
    | Threw error =>
        match get_message error with
        | Ret m => [Message "assistant" (Str ("Error: " +:+ to_string m))]
        | Threw _ => []
        end
    end in
  App (messages a ++ appended) (inputValue a) false (threadId a).

End Client.

(** ** The vocabulary of the properties *)

Module Spec.
Import JS Executor Agent.

(** [sub] occurs in [s]. *)
Definition contains (s sub : string) : Prop :=
  exists before after, s = before +:+ sub +:+ after.

(** The patterns the safety measure looks for. *)
Definition denylist : list string :=
  ["process.exit"; "require("; "import "; "eval("].

Definition denylisted (code : string) : Prop :=
  exists pattern, In pattern denylist /\ contains code pattern.

(** The text of each write a program makes on one channel, in program
    order: the arguments of one console call separated by single spaces. *)
Fixpoint writes (c : channel) (b : behaviour) : list string :=
  match b with
  | Finish | Throw _ | Spin => []
  | ConsoleLog args next =>
      match c with
      | Out => join " " args :: writes c next
      | Err => writes c next
      end
  | ConsoleError args next =>
      match c with
      | Out => writes c next
      | Err => join " " args :: writes c next
      end
  end.

(** How a program ends, if it does. *)
Fixpoint final (b : behaviour) : option ending :=
  match b with
  | Finish => Some Normal
  | Throw v => Some (Thrown v)
  | ConsoleLog _ next | ConsoleError _ next => final next
  | Spin => None
  end.

(** The number of steps a program takes up to its end (up to the point
    where it starts spinning, for one that does not end). *)
Fixpoint duration (b : behaviour) : nat :=
  match b with
  | Finish | Throw _ | Spin => 1
  | ConsoleLog _ next | ConsoleError _ next => S (duration next)
  end.


(** The world an invocation leaves when it returns: the console as it
    found it, one more invocation counted, nothing written to the real
    streams. *)
Definition after_return (w : world) : world :=
  World (console_log w) (console_error w) (S (invocations w))
        (process_stdout w) (process_stderr w).

(** The world an invocation leaves when it does not return: the console
    methods are still its two capturing closures. *)
Definition left_captured (w : world) : world :=
  World (Capture (invocations w) Out) (Capture (invocations w) Err)
        (S (invocations w)) (process_stdout w) (process_stderr w).

(** A Latin capital letter. *)
Definition is_capital (c : ascii) : bool :=
  (65 <=? nat_of_ascii c) && (nat_of_ascii c <=? 90).

(** [d] is [c], or [c] is a capital and [d] its small letter. *)
Definition agree (c d : ascii) : Prop :=
  c = d \/ (is_capital c = true /\ nat_of_ascii d = nat_of_ascii c + 32).

(** [s] spells [t] when case is ignored in [s]. *)
Fixpoint spells (s t : string) : Prop :=
  match s, t with
  | EmptyString, EmptyString => True
  | String c s', String d t' => agree c d /\ spells s' t'
  | _, _ => False
  end.

(** No capital letter occurs in [t]. *)
Fixpoint no_capitals (t : string) : bool :=
  match t with
  | EmptyString => true
  | String c t' => negb (is_capital c) && no_capitals t'
  end.

(** [s] contains [words], written in small letters, case-insensitively. *)
Definition contains_ignoring_case (s words : string) : Prop :=
  exists before mid after, s = before +:+ mid +:+ after /\ spells mid words.

(** A thrown value that is a string, a number or a boolean. *)
Definition primitive (v : value) : Prop :=
  match v with
  | Bool _ | Num _ | Str _ => True
  | _ => False
  end.

(** Every character of [s] is white space. *)
Fixpoint blank (s : string) : Prop :=
  match s with
  | EmptyString => True
  | String c rest => Client.is_space c = true /\ blank rest
  end.

(** Every character of [s] is in the ASCII range. *)
Fixpoint ascii_only (s : string) : Prop :=
  match s with
  | EmptyString => True
  | String c rest => nat_of_ascii c < 128 /\ ascii_only rest
  end.

(** The messages a run of the agent contributes to a thread. *)
Definition contributed (react : list message -> completion (list message))
    (seen : list message) : list message :=
  match react seen with
  | Ret new => new
  | Threw _ => []
  end.

End Spec.

(** * Properties *)

(** ** Strings *)

Module StringFacts.
Import JS Spec.

#[local] Arguments String.append !_ _ / : simpl nomatch.

Lemma append_assoc (a b c : string) : (a +:+ b) +:+ c = a +:+ (b +:+ c).
Proof. induction a as [|x a IH]; simpl; [reflexivity | now rewrite IH]. Qed.

Lemma append_empty_r (a : string) : a +:+ "" = a.
Proof. induction a as [|x a IH]; simpl; [reflexivity | now rewrite IH]. Qed.

Lemma prefix_append (a rest : string) : String.prefix a (a +:+ rest) = true.
Proof.
  induction a as [|x a IH]; simpl.
  - now destruct rest.
  - destruct (ascii_dec x x) as [_|ne]; [exact IH | now destruct ne].
Qed.

Lemma prefix_split (a s : string) :
  String.prefix a s = true -> exists rest, s = a +:+ rest.
Proof.
  revert s; induction a as [|x a IH]; intros s H.
  - now exists s.
  - destruct s as [|y s]; simpl in H; [discriminate|].
    destruct (ascii_dec x y) as [->|_]; [|discriminate].
    destruct (IH _ H) as [rest ->]. now exists rest.
Qed.

Lemma includes_unfold (s sub : string) :
  includes s sub =
  if String.prefix sub s then true
  else match s with
       | EmptyString => false
       | String _ rest => includes rest sub
       end.
Proof. destruct s; reflexivity. Qed.

Lemma includes_contains (s sub : string) :
  includes s sub = true <-> contains s sub.
Proof.
  split.
  - induction s as [|c s IH]; rewrite includes_unfold; intros H.
    + destruct (String.prefix sub "") eqn:P; [|discriminate].
      destruct (prefix_split _ _ P) as [rest E].
      exists "", rest. exact E.
    + destruct (String.prefix sub (String c s)) eqn:P.
      * destruct (prefix_split _ _ P) as [rest E].
        exists "", rest. exact E.
      * destruct (IH H) as (before & after & ->).
        now exists (String c before), after.
  - intros (before & after & ->).
    induction before as [|c before IH].
    + change ("" +:+ sub +:+ after) with (sub +:+ after).
      now rewrite includes_unfold, prefix_append.
    + change (String c before +:+ sub +:+ after)
        with (String c (before +:+ sub +:+ after)).
      rewrite includes_unfold, IH. now destruct (String.prefix sub _).
Qed.

Lemma includes_false (s sub : string) :
  includes s sub = false <-> ~ contains s sub.
Proof.
  rewrite <- includes_contains. destruct (includes s sub); split; intros H.
  - discriminate.
  - now destruct H.
  - discriminate.
  - reflexivity.
Qed.

End StringFacts.

(** ** The executor *)

Module ExecutorFacts.
Import JS Executor Spec StringFacts.

#[local] Arguments String.append !_ _ / : simpl nomatch.

Lemma join_strings (sep : string) (lines : list string) :
  join sep (map Str lines) = String.concat sep lines.
Proof.
  induction lines as [|x [|y rest] IH]; try reflexivity.
  change (join sep (map Str (x :: y :: rest)))
    with (x +:+ sep +:+ join sep (map Str (y :: rest))).
  now rewrite IH.
Qed.

Lemma frame_eta (f : frame) : Frame (output f) (errorOutput f) = f.
Proof. now destruct f. Qed.

(** Inside invocation [me], with the console redirected to [me]'s own
    closures, a console call only pushes one line onto [me]'s array. *)
Lemma call_captured_log (me : nat) (args : list value) (w : world) (f : frame) :
  call (Capture me Out) me args w f =
  (w, Frame (output f ++ [Str (join " " args)]) (errorOutput f)).
Proof. unfold call. now rewrite Nat.eqb_refl. Qed.

Lemma call_captured_error (me : nat) (args : list value) (w : world) (f : frame) :
  call (Capture me Err) me args w f =
  (w, Frame (output f) (errorOutput f ++ [Str (join " " args)])).
Proof. unfold call. now rewrite Nat.eqb_refl. Qed.

(** Observed for at least its duration, a program has made all its
    writes, in order, onto the two arrays, and has ended as [final] says. *)
Lemma run_captured (steps me : nat) (b : behaviour) (w : world) (f : frame) :
  console_log w = Capture me Out ->
  console_error w = Capture me Err ->
  duration b <= steps ->
  run steps me b w f =
  (final b, w, Frame (output f ++ map Str (writes Out b))
                     (errorOutput f ++ map Str (writes Err b))).
Proof.
  intros Hl He. revert steps f.
  induction b as [| v | args next IH | args next IH |]; intros steps f Hd;
    (destruct steps as [|steps]; [simpl in Hd; lia|]); simpl in *.
  - now rewrite !app_nil_r, frame_eta.
  - now rewrite !app_nil_r, frame_eta.
  - rewrite Hl, call_captured_log, IH by lia. simpl.
    now rewrite <- app_assoc.
  - rewrite He, call_captured_error, IH by lia. simpl.
    now rewrite <- app_assoc.
  - clear Hd. induction steps as [|steps IH]; simpl.
    + now rewrite !app_nil_r, frame_eta.
    + exact IH.
Qed.

(** A program that does not end is never seen to end, and leaves the
    world as it is. *)
Lemma run_endless (steps me : nat) (b : behaviour) (w : world) (f : frame) :
  console_log w = Capture me Out ->
  console_error w = Capture me Err ->
  final b = None ->
  exists f', run steps me b w f = (None, w, f').
Proof.
  intros Hl He. revert b f.
  induction steps as [|steps IH]; intros b f Hf; simpl.
  - now exists f.
  - destruct b as [| v | args next | args next |]; simpl in Hf; try discriminate.
    + rewrite Hl, call_captured_log. now apply IH.
    + rewrite He, call_captured_error. now apply IH.
    + now apply IH.
Qed.

Lemma dangerous_denylisted (code : string) :
  dangerous code = true <-> denylisted code.
Proof.
  unfold dangerous, denylisted, denylist. rewrite !orb_true_iff.
  rewrite !includes_contains. split.
  - intros [[[H|H]|H]|H]; eexists; (split; [|exact H]); simpl; tauto.
  - intros (p & Hin & H). simpl in Hin.
    destruct Hin as [<-|[<-|[<-|[<-|[]]]]]; tauto.
Qed.

End ExecutorFacts.

Module ExecutorProperties.
Import JS Executor Spec StringFacts ExecutorFacts.

#[local] Arguments String.append !_ _ / : simpl nomatch.

(** The three ways an invocation returns, read off [evalAndCaptureOutput]
    for a program observed for at least its duration. *)
Lemma returns_when_finished (js_eval : string -> behaviour) (steps : nat)
    (code : string) (w : world) :
  dangerous code = false ->
  duration (js_eval code) <= steps ->
  final (js_eval code) = Some Normal ->
  evalAndCaptureOutput js_eval steps code w =
  (Returned (Result (String.concat newline (writes Out (js_eval code)))
                    (String.concat newline (writes Err (js_eval code)))),
   after_return w).
Proof.
  intros Hd Hs Hf. unfold evalAndCaptureOutput, try_block. rewrite Hd.
  rewrite run_captured by (simpl; auto). rewrite Hf. simpl.
  unfold restore_and_return. simpl. now rewrite !join_strings.
Qed.

Lemma returns_when_caught (js_eval : string -> behaviour) (steps : nat)
    (code : string) (w : world) (e m : value) :
  dangerous code = false ->
  duration (js_eval code) <= steps ->
  final (js_eval code) = Some (Thrown e) ->
  get_message e = Ret m ->
  evalAndCaptureOutput js_eval steps code w =
  (Returned (Result (String.concat newline (writes Out (js_eval code)))
                    (join newline (map Str (writes Err (js_eval code)) ++ [m]))),
   after_return w).
Proof.
  intros Hd Hs Hf Hm. unfold evalAndCaptureOutput, try_block. rewrite Hd.
  rewrite run_captured by (simpl; auto). rewrite Hf, Hm. simpl.
  unfold restore_and_return, push. simpl. now rewrite join_strings.
Qed.

Lemma rejects_when_unreadable (js_eval : string -> behaviour) (steps : nat)
    (code : string) (w : world) (e e' : value) :
  dangerous code = false ->
  duration (js_eval code) <= steps ->
  final (js_eval code) = Some (Thrown e) ->
  get_message e = Threw e' ->
  evalAndCaptureOutput js_eval steps code w = (Rejected e', left_captured w).
Proof.
  intros Hd Hs Hf Hm. unfold evalAndCaptureOutput, try_block. rewrite Hd.
  rewrite run_captured by (simpl; auto). now rewrite Hf, Hm.
Qed.

Lemma pending_when_endless (js_eval : string -> behaviour) (steps : nat)
    (code : string) (w : world) :
  dangerous code = false ->
  final (js_eval code) = None ->
  evalAndCaptureOutput js_eval steps code w = (Pending, left_captured w).
Proof.
  intros Hd Hf. unfold evalAndCaptureOutput, try_block. rewrite Hd.
  destruct (run_endless steps (invocations w) (js_eval code)
              (World (Capture (invocations w) Out) (Capture (invocations w) Err)
                     (S (invocations w)) (process_stdout w) (process_stderr w))
              (Frame [] [])) as [f' ->]; auto.
Qed.

Lemma returns_when_dangerous (js_eval : string -> behaviour) (steps : nat)
    (code : string) (w : world) :
  dangerous code = true ->
  evalAndCaptureOutput js_eval steps code w =
  (Returned (Result "" "Potentially dangerous code detected"), after_return w).
Proof.
  intros Hd. unfold evalAndCaptureOutput, try_block. now rewrite Hd.
Qed.

(** C1: code that contains one of the denylisted substrings is answered
    with empty stdout and the stderr text 'Potentially dangerous code
    detected'; the answer does not depend on what evaluating the code
    would do nor on how long one waits, nothing reaches the real output
    streams, and the console is as before. *)
Theorem dangerous_code_is_rejected_unevaluated
    (js_eval : string -> behaviour) (steps : nat) (code : string) (w : world) :
  denylisted code ->
  evalAndCaptureOutput js_eval steps code w =
  (Returned (Result "" "Potentially dangerous code detected"),
   World (console_log w) (console_error w) (S (invocations w))
         (process_stdout w) (process_stderr w)).
Proof.
  intros H. apply dangerous_denylisted in H.
  now apply returns_when_dangerous.
Qed.

Lemma dangerous_code_is_rejected_unevaluated_witness :
  denylisted "x = eval('1 + 1')" /\
  evalAndCaptureOutput sample_eval 0 "x = eval('1 + 1')" initial =
  (Returned (Result "" "Potentially dangerous code detected"),
   World (Native Out) (Native Err) 1 [] []).
Proof.
  assert (H : denylisted "x = eval('1 + 1')").
  { exists "eval(". split; [simpl; tauto|]. now exists "x = ", "'1 + 1')". }
  split; [exact H|].
  exact (dangerous_code_is_rejected_unevaluated sample_eval 0 _ initial H).
Defined.





(** C3, counterexample: a program that writes once and then loops forever
    is never answered, with a Timeout or otherwise: no number of observed
    steps yields a returned result. *)
Lemma looping_code_is_never_timed_out :
  ~ (exists steps r w',
       evalAndCaptureOutput sample_eval steps
         "console.log('tick'); while (true) {}" initial
       = (Returned r, w')).
Proof.
  intros (steps & r & w' & H).
  rewrite pending_when_endless in H by reflexivity. discriminate.
Qed.

(** C3, amended: the executor has no time budget and no Timeout outcome:
    for every code string that passes the filter and whose evaluation
    never ends, the invocation returns no result, however long it is
    observed. *)
Theorem endless_evaluation_stays_pending
    (js_eval : string -> behaviour) (code : string) (w : world) :
  dangerous code = false ->
  final (js_eval code) = None ->
  forall steps, fst (evalAndCaptureOutput js_eval steps code w) = Pending.
Proof.
  intros Hd Hf steps. now rewrite pending_when_endless.
Qed.

Lemma endless_evaluation_stays_pending_witness :
  fst (evalAndCaptureOutput sample_eval 1000
         "console.log('tick'); while (true) {}" initial) = Pending.
Proof.
  exact (endless_evaluation_stays_pending sample_eval
           "console.log('tick'); while (true) {}" initial
           eq_refl eq_refl 1000).
Defined.

(** C4, counterexample: two writes 'a' and 'b' give the stdout text 'a',
    a line feed, 'b', which is not the concatenation 'ab' of the writes. *)
Lemma stdout_is_not_the_plain_concatenation :
  writes Out (sample_eval "console.log('a'); console.log('b')") = ["a"; "b"] /\
  evalAndCaptureOutput sample_eval 3 "console.log('a'); console.log('b')" initial
  = (Returned (Result ("a" +:+ newline +:+ "b") ""), after_return initial) /\
  "a" +:+ newline +:+ "b"
  <> String.concat "" (writes Out (sample_eval "console.log('a'); console.log('b')")).
Proof. repeat split. discriminate. Qed.

(** C4, amended: for every code string that passes the filter and whose
    evaluation ends without a fault, the invocation returns with stdout
    equal to the console.log writes in program order, joined by one line
    feed between consecutive writes (so a single write is returned as it
    is), and with stderr equal to the console.error writes joined
    likewise, no fault message being added. *)
Theorem finished_code_output_is_joined_writes
    (js_eval : string -> behaviour) (steps : nat) (code : string) (w : world) :
  dangerous code = false ->
  final (js_eval code) = Some Normal ->
  duration (js_eval code) <= steps ->
  exists r,
    evalAndCaptureOutput js_eval steps code w = (Returned r, after_return w) /\
    stdout r = String.concat newline (writes Out (js_eval code)) /\
    stderr r = String.concat newline (writes Err (js_eval code)) /\
    (forall line, writes Out (js_eval code) = [line] -> stdout r = line).
Proof.
  intros Hd Hf Hs. eexists. split.
  - now apply returns_when_finished.
  - simpl. repeat split. now intros line ->.
Qed.

Lemma finished_code_output_is_joined_writes_witness :
  exists r,
    evalAndCaptureOutput sample_eval 5
      "console.log('x', 'y'); console.error('warn')" initial
    = (Returned r, after_return initial) /\
    stdout r = String.concat newline
      (writes Out (sample_eval "console.log('x', 'y'); console.error('warn')")) /\
    stderr r = String.concat newline
      (writes Err (sample_eval "console.log('x', 'y'); console.error('warn')")) /\
    (forall line,
       writes Out (sample_eval "console.log('x', 'y'); console.error('warn')")
       = [line] -> stdout r = line).
Proof.
  apply (finished_code_output_is_joined_writes sample_eval 5
           "console.log('x', 'y'); console.error('warn')" initial).
  - reflexivity.
  - reflexivity.
  - simpl. lia.
Defined.

(** C5: on the input [console.log('partial'); throw undefined] the code
    writes to stdout and then throws, yet no result is returned: reading
    the message of the thrown value fails inside the catch block, the
    invocation is rejected with that TypeError and the captured line is
    lost with it. *)
Theorem partial_output_lost_when_undefined_is_thrown :
  writes Out (sample_eval "console.log('partial'); throw undefined") = ["partial"] /\
  final (sample_eval "console.log('partial'); throw undefined")
  = Some (Thrown Undefined) /\
  evalAndCaptureOutput sample_eval 10
    "console.log('partial'); throw undefined" initial
  = (Rejected (ErrorObj "TypeError"
                 "Cannot read properties of undefined (reading 'message')"),
     left_captured initial).
Proof. repeat split. Qed.

(** C6: on the input [throw null] the invocation ends by a runtime fault
    and the redirection is not undone: console.log and console.error are
    still the capturing functions of that invocation, and a later
    invocation saves and puts back those functions instead of the native
    ones. *)
Theorem console_stays_redirected_when_null_is_thrown :
  let first := evalAndCaptureOutput sample_eval 10 "throw null" initial in
  let second :=
    evalAndCaptureOutput sample_eval 10 "console.log(15 * 37)" (snd first) in
  console_log initial = Native Out /\
  console_error initial = Native Err /\
  fst first = Rejected (ErrorObj "TypeError"
                "Cannot read properties of null (reading 'message')") /\
  console_log (snd first) = Capture 0 Out /\
  console_error (snd first) = Capture 0 Err /\
  fst second = Returned (Result "555" "") /\
  console_log (snd second) = Capture 0 Out /\
  console_error (snd second) = Capture 0 Err.
Proof. vm_compute. repeat split. Qed.

End ExecutorProperties.

(** ** The agent's tools and chat route *)

Module AgentProperties.
Import JS Executor ExecutorApi Agent Spec StringFacts.

#[local] Arguments String.append !_ _ / : simpl nomatch.

Lemma toLowerCase_append (a b : string) :
  toLowerCase (a +:+ b) = toLowerCase a +:+ toLowerCase b.
Proof. induction a as [|c a IH]; simpl; [reflexivity | now rewrite IH]. Qed.

Lemma toLowerCase_split (s x y : string) :
  toLowerCase s = x +:+ y ->
  exists s1 s2, s = s1 +:+ s2 /\ toLowerCase s1 = x /\ toLowerCase s2 = y.
Proof.
  revert s; induction x as [|c x IH]; intros s H.
  - now exists "", s.
  - destruct s as [|d s]; simpl in H; [discriminate|].
    injection H as Hc Hs. destruct (IH _ Hs) as (s1 & s2 & -> & H1 & H2).
    exists (String d s1), s2. simpl. now rewrite Hc, H1.
Qed.

Lemma agree_lower_char (c : ascii) : agree c (lower_char c).
Proof.
  unfold agree, lower_char, is_capital.
  destruct ((65 <=? nat_of_ascii c) && (nat_of_ascii c <=? 90)) eqn:E.
  - right. split; [reflexivity|].
    apply andb_true_iff in E as [_ E]. apply Nat.leb_le in E.
    apply nat_ascii_embedding. lia.
  - now left.
Qed.

Lemma lower_char_agree (c d : ascii) :
  is_capital d = false -> agree c d -> lower_char c = d.
Proof.
  unfold agree, lower_char, is_capital. intros Hd [->|[Hc E]].
  - now rewrite Hd.
  - rewrite Hc, <- E. apply ascii_nat_embedding.
Qed.

Lemma spells_toLowerCase (s : string) : spells s (toLowerCase s).
Proof.
  induction s as [|c s IH]; simpl; [exact I|].
  split; [apply agree_lower_char | exact IH].
Qed.

Lemma toLowerCase_spelt (s t : string) :
  no_capitals t = true -> spells s t -> toLowerCase s = t.
Proof.
  revert t; induction s as [|c s IH]; intros [|d t] Ht H; simpl in *;
    try contradiction; [reflexivity|].
  apply andb_true_iff in Ht as [Hd Ht]. apply negb_true_iff in Hd.
  destruct H as [Hc Hs]. now rewrite (lower_char_agree c d), (IH t).
Qed.

(** What the test of the weather tool decides, for words in small letters. *)
Lemma includes_toLowerCase (s words : string) :
  no_capitals words = true ->
  includes (toLowerCase s) words = true <-> contains_ignoring_case s words.
Proof.
  intros Hw. rewrite includes_contains. split.
  - intros (x & y & H).
    destruct (toLowerCase_split _ _ _ H) as (before & rest & -> & _ & H1).
    destruct (toLowerCase_split _ _ _ H1) as (mid & after & -> & H2 & _).
    exists before, mid, after. split; [reflexivity|].
    rewrite <- H2. apply spells_toLowerCase.
  - intros (before & mid & after & -> & H).
    exists (toLowerCase before), (toLowerCase after).
    now rewrite !toLowerCase_append, (toLowerCase_spelt mid words).
Qed.

(** C10: the weather tool answers "It's 60 degrees and foggy." when the
    query contains 'san francisco' with case ignored, and "It's 90 degrees
    and sunny." otherwise; a query that mentions San Francisco gets the
    foggy answer verbatim. *)
Theorem weather_depends_on_san_francisco (query : string) :
  (contains_ignoring_case query "san francisco" ->
     weatherTool query = "It's 60 degrees and foggy.") /\
  (~ contains_ignoring_case query "san francisco" ->
     weatherTool query = "It's 90 degrees and sunny.") /\
  (forall before after,
     weatherTool (before +:+ "San Francisco" +:+ after)
     = "It's 60 degrees and foggy.").
Proof.
  assert (yes : forall q, contains_ignoring_case q "san francisco" ->
                  weatherTool q = "It's 60 degrees and foggy.").
  { intros q H. unfold weatherTool.
    apply includes_toLowerCase in H; [|reflexivity]. now rewrite H. }
  split; [apply yes|]. split.
  - intros H. unfold weatherTool.
    destruct (includes (toLowerCase query) "san francisco") eqn:E;
      [|reflexivity].
    destruct H. now apply includes_toLowerCase.
  - intros before after. apply yes.
    exists before, "San Francisco", after. split; [reflexivity|].
    simpl. unfold agree, is_capital. simpl. intuition auto.
Qed.

Lemma weather_depends_on_san_francisco_witness :
  contains_ignoring_case "Weather in SAN Francisco?" "san francisco" /\
  weatherTool "Weather in SAN Francisco?" = "It's 60 degrees and foggy." /\
  ~ contains_ignoring_case "Weather in Oslo" "san francisco" /\
  weatherTool "Weather in Oslo" = "It's 90 degrees and sunny.".
Proof.
  assert (H1 : contains_ignoring_case "Weather in SAN Francisco?" "san francisco").
  { exists "Weather in ", "SAN Francisco", "?". split; [reflexivity|].
    simpl. unfold agree, is_capital. simpl. intuition auto. }
  assert (H2 : ~ contains_ignoring_case "Weather in Oslo" "san francisco").
  { intros H. apply includes_toLowerCase in H; [|reflexivity]. discriminate. }
  split; [exact H1|]. split.
  - exact (proj1 (weather_depends_on_san_francisco _) H1).
  - split; [exact H2|].
    exact (proj1 (proj2 (weather_depends_on_san_francisco _)) H2).
Defined.

(** Every value thrown inside the [try] block of the tool is an error
    object, whose message can be read. *)
Lemma jsExecutor_try_throws_errors (o : fetch_outcome) (error : value) :
  jsExecutor_try o = Threw error ->
  exists name reason, error = ErrorObj name reason.
Proof.
  destruct o as [m | status json]; simpl.
  - intros [= <-]. eauto.
  - destruct (response_ok status); simpl.
    + destruct json as [b | m]; intros [= <-]. eauto.
    + intros [= <-]. unfold new_Error. eauto.
Qed.

(** C8: the code-execution tool always returns a value.  When its handler
    fails (the executor cannot be reached, answers with a status that is
    not OK, or sends a body that is no JSON), the value has empty stdout
    and the stderr text 'Error executing code: ' followed by the reason
    of the failure; nothing is thrown to the caller. *)
Theorem tool_failure_is_returned_as_result (o : fetch_outcome) :
  (exists b, jsExecutor o = Ret b) /\
  (forall error, jsExecutor_try o = Threw error ->
     exists reason,
       get_message error = Ret (Str reason) /\
       jsExecutor o
       = Ret (ResultBody (Result "" ("Error executing code: " +:+ reason)))) /\
  (forall reason, o = NetworkFailure reason ->
     jsExecutor o
     = Ret (ResultBody (Result "" ("Error executing code: " +:+ reason)))) /\
  (forall status json, o = HttpResponse status json ->
     response_ok status = false ->
     jsExecutor o
     = Ret (ResultBody (Result ""
              ("Error executing code: HTTP error! status: "
               +:+ to_string (Num status))))).
Proof.
  assert (caught : forall error, jsExecutor_try o = Threw error ->
            exists reason,
              get_message error = Ret (Str reason) /\
              jsExecutor o
              = Ret (ResultBody (Result "" ("Error executing code: " +:+ reason)))).
  { intros error H.
    destruct (jsExecutor_try_throws_errors _ _ H) as (name & reason & ->).
    exists reason. split; [reflexivity|]. unfold jsExecutor. now rewrite H. }
  split; [|split; [exact caught|split]].
  - destruct (jsExecutor_try o) as [b|error] eqn:E.
    + exists b. unfold jsExecutor. now rewrite E.
    + destruct (caught error eq_refl) as (reason & _ & ->). eauto.
  - now intros reason ->.
  - intros status json -> Hok. unfold jsExecutor. simpl. now rewrite Hok.
Qed.

Lemma tool_failure_is_returned_as_result_witness :
  jsExecutor (HttpResponse 500 (Parsed (ErrorBody "Internal server error")))
  = Ret (ResultBody (Result ""
           "Error executing code: HTTP error! status: 500")).
Proof.
  exact (proj2 (proj2 (proj2
           (tool_failure_is_returned_as_result
              (HttpResponse 500 (Parsed (ErrorBody "Internal server error"))))))
           500%Z (Parsed (ErrorBody "Internal server error")) eq_refl eq_refl).
Defined.

Lemma history_insert (store : gmap string (list message)) (thread : string)
    (ms : list message) :
  history (<[thread := ms]> store) thread = ms.
Proof. unfold history. now rewrite lookup_insert_eq. Qed.

Lemma history_insert_other (store : gmap string (list message))
    (thread other : string) (ms : list message) :
  thread <> other -> history (<[thread := ms]> store) other = history store other.
Proof. intros H. unfold history. now rewrite lookup_insert_ne. Qed.

(** What a run of the agent leaves in the store. *)
Lemma agent_invoke_store (react : list message -> completion (list message))
    (input : list message) (thread : value) (store : gmap string (list message)) :
  snd (agent_invoke react input thread store)
  = <[to_string thread :=
        (history store (to_string thread) ++ input)
        ++ contributed react (history store (to_string thread) ++ input)]> store.
Proof.
  unfold agent_invoke, contributed.
  destruct (react _); simpl; [reflexivity | now rewrite app_nil_r].
Qed.

Lemma generate_store (react : list message -> completion (list message))
    (req : request) (store : gmap string (list message)) :
  truthy (prompt req) = true ->
  snd (generate react req store)
  = snd (agent_invoke react [Message "user" (prompt req)] (thread_of req) store).
Proof.
  intros H. unfold generate. rewrite H. simpl.
  now destruct (agent_invoke _ _ _ _) as [[ms|e] store'].
Qed.

(** C9: a chat request without a thread_id is served on the thread
    'default'.  Two such requests therefore read and extend one and the
    same history: the second run sees the messages of the first, and no
    other thread is created or changed. *)
Theorem missing_thread_id_means_default_thread
    (react : list message -> completion (list message))
    (first second : request) (store : gmap string (list message)) :
  thread_id first = Undefined ->
  thread_id second = Undefined ->
  truthy (prompt first) = true ->
  truthy (prompt second) = true ->
  let store1 := snd (generate react first store) in
  let store2 := snd (generate react second store1) in
  let seen1 := history store "default" ++ [Message "user" (prompt first)] in
  let seen2 := history store1 "default" ++ [Message "user" (prompt second)] in
  thread_of first = Str "default" /\
  thread_of second = Str "default" /\
  history store1 "default" = seen1 ++ contributed react seen1 /\
  history store2 "default" = seen2 ++ contributed react seen2 /\
  (forall other, other <> "default" -> store2 !! other = store !! other).
Proof.
  intros T1 T2 P1 P2.
  assert (D1 : thread_of first = Str "default")
    by (unfold thread_of; now rewrite T1).
  assert (D2 : thread_of second = Str "default")
    by (unfold thread_of; now rewrite T2).
  cbv zeta.
  rewrite !generate_store by assumption.
  rewrite !agent_invoke_store, D1, D2. simpl to_string.
  repeat split.
  - now rewrite history_insert.
  - now rewrite !history_insert.
  - intros other H. now rewrite !lookup_insert_ne by congruence.
Qed.

Lemma missing_thread_id_means_default_thread_witness :
  let react := fun _ : list message => Ret [Message "assistant" (Str "hello")] in
  let first := Request (Str "hi") Undefined in
  let second := Request (Str "again") Undefined in
  let store1 := snd (generate react first ∅) in
  let store2 := snd (generate react second store1) in
  history store2 "default"
  = [Message "user" (Str "hi"); Message "assistant" (Str "hello");
     Message "user" (Str "again"); Message "assistant" (Str "hello")].
Proof.
  cbv zeta.
  rewrite (proj1 (proj2 (proj2 (proj2
    (missing_thread_id_means_default_thread
       (fun _ => Ret [Message "assistant" (Str "hello")])
       (Request (Str "hi") Undefined) (Request (Str "again") Undefined) ∅
       eq_refl eq_refl eq_refl eq_refl))))).
  rewrite (proj1 (proj2 (proj2
    (missing_thread_id_means_default_thread
       (fun _ => Ret [Message "assistant" (Str "hello")])
       (Request (Str "hi") Undefined) (Request (Str "again") Undefined) ∅
       eq_refl eq_refl eq_refl eq_refl)))).
  reflexivity.
Defined.

End AgentProperties.

(** ** The reasoning loop *)

Module OrchestratorProperties.
Import JS Agent Orchestrator.

Section Bounded.

Variable cap : nat.
Variable oracle : list message -> decision.
Variable invoke : string -> value -> string.
Variable loaded : list message.

Abbreviation step := (Orchestrator.step cap oracle invoke loaded).
Abbreviation steps := (Orchestrator.steps cap oracle invoke loaded).

Lemma step_within_cap (s : state) : within_cap cap s -> within_cap cap (step s).
Proof.
  unfold within_cap, Orchestrator.step. intros [Hle Hph].
  destruct (at_phase s) eqn:E; simpl.
  - now split.
  - destruct (oracle (messages s)); simpl; [now split|].
    destruct (dispatched s <? cap) eqn:L; simpl; [|now split].
    apply Nat.ltb_lt in L. split; [lia | exact L].
  - split; [lia | exact I].
  - rewrite E. now split.
Qed.

Lemma steps_within_cap (n : nat) (s : state) :
  within_cap cap s -> within_cap cap (steps n s).
Proof.
  revert s; induction n as [|n IH]; intros s H; simpl; [exact H|].
  apply IH, step_within_cap, H.
Qed.

Lemma steps_succ (n : nat) (s : state) : steps (S n) s = steps n (step s).
Proof. reflexivity. Qed.

Lemma steps_responded (n : nat) (s : state) (a : string) :
  at_phase s = Responded a -> steps n s = s.
Proof.
  intros H. induction n as [|n IH]; [reflexivity|].
  rewrite steps_succ. unfold Orchestrator.step. now rewrite H.
Qed.

Lemma step_reason (ms : list message) (d : nat) :
  step (State Reason ms d) =
  match oracle ms with
  | FinalAnswer text =>
      State (Responded text) (ms ++ [Message "assistant" (Str text)]) d
  | ToolRequest name args =>
      if d <? cap then State (Dispatch name args) ms d
      else State (Responded limit_reached)
                 (ms ++ [Message "assistant" (Str limit_reached)]) d
  end.
Proof. reflexivity. Qed.

Lemma step_dispatch (name : string) (args : value) (ms : list message) (d : nat) :
  step (State (Dispatch name args) ms d) =
  State Reason
        (ms ++ [Message "tool" (Str name); Message "tool" (Str (invoke name args))])
        (S d).
Proof. reflexivity. Qed.

(** From Reason with [left] dispatches left below the cap, the machine
    has responded after at most [2 * left + 1] transitions. *)
Lemma reason_responds (left : nat) (ms : list message) (d : nat) :
  d + left = cap ->
  exists a, answer (steps (2 * left + 1) (State Reason ms d)) = Some a.
Proof.
  revert ms d; induction left as [|left IH]; intros ms d Hd.
  - change (2 * 0 + 1) with 1. rewrite steps_succ, step_reason.
    destruct (oracle ms); simpl; [eauto|].
    replace (d <? cap) with false by (symmetry; apply Nat.ltb_ge; lia).
    simpl. eauto.
  - replace (2 * S left + 1) with (S (S (2 * left + 1))) by lia.
    rewrite steps_succ, step_reason.
    destruct (oracle ms) as [text | name args].
    + rewrite (steps_responded _ _ text) by reflexivity. simpl. eauto.
    + replace (d <? cap) with true by (symmetry; apply Nat.ltb_lt; lia).
      rewrite steps_succ, step_dispatch. apply IH. lia.
Qed.

(** With an oracle that asks for a tool whatever the history, the machine
    dispatches exactly [cap] times and answers that the limit is reached. *)
Lemma reason_hits_cap (left : nat) (ms : list message) (d : nat) :
  (forall h, exists name args, oracle h = ToolRequest name args) ->
  d + left = cap ->
  answer (steps (2 * left + 1) (State Reason ms d)) = Some limit_reached /\
  dispatched (steps (2 * left + 1) (State Reason ms d)) = cap.
Proof.
  intros Hor. revert ms d; induction left as [|left IH]; intros ms d Hd.
  - change (2 * 0 + 1) with 1. rewrite !steps_succ, !step_reason.
    destruct (Hor ms) as (name & args & ->).
    replace (d <? cap) with false by (symmetry; apply Nat.ltb_ge; lia).
    simpl. split; [reflexivity | lia].
  - replace (2 * S left + 1) with (S (S (2 * left + 1))) by lia.
    rewrite !steps_succ, !step_reason.
    destruct (Hor ms) as (name & args & ->).
    replace (d <? cap) with true by (symmetry; apply Nat.ltb_lt; lia).
    rewrite !step_dispatch. apply IH. lia.
Qed.

End Bounded.

(** C7: whatever the oracle does, the machine never performs more than
    [cap] Dispatch steps and has produced a final answer after at most
    [2 * cap + 2] transitions; with an oracle that keeps requesting tools
    it stops after exactly [cap] dispatches and its final answer is the
    one stating that the limit was reached. *)
Theorem dispatches_are_capped (cap : nat) (oracle : list message -> decision)
    (invoke : string -> value -> string) (loaded : list message) :
  (forall n, dispatched (steps cap oracle invoke loaded n start) <= cap) /\
  (exists a,
     answer (steps cap oracle invoke loaded (2 * cap + 2) start) = Some a) /\
  ((forall h, exists name args, oracle h = ToolRequest name args) ->
   answer (steps cap oracle invoke loaded (2 * cap + 2) start)
   = Some limit_reached /\
   dispatched (steps cap oracle invoke loaded (2 * cap + 2) start) = cap).
Proof.
  assert (E : steps cap oracle invoke loaded (2 * cap + 2) start
              = steps cap oracle invoke loaded (2 * cap + 1)
                  (State Reason loaded 0)).
  { replace (2 * cap + 2) with (S (2 * cap + 1)) by lia. reflexivity. }
  split; [|split].
  - intros n. apply (steps_within_cap cap oracle invoke loaded n start).
    split; simpl; [lia | exact I].
  - rewrite E. now apply reason_responds.
  - intros Hor. rewrite E. now apply reason_hits_cap.
Qed.

Lemma dispatches_are_capped_witness :
  let oracle := fun _ : list message => ToolRequest "weather" (Str "Oslo") in
  let invoke := fun (_ : string) (_ : value) => "It's 90 degrees and sunny." in
  answer (steps 5 oracle invoke [Message "user" (Str "hi")] 12 start)
  = Some limit_reached /\
  dispatched (steps 5 oracle invoke [Message "user" (Str "hi")] 12 start) = 5.
Proof.
  cbv zeta.
  apply (proj2 (proj2 (dispatches_are_capped 5
           (fun _ => ToolRequest "weather" (Str "Oslo"))
           (fun _ _ => "It's 90 degrees and sunny.")
           [Message "user" (Str "hi")]))).
  intros h. now exists "weather", (Str "Oslo").
Defined.

End OrchestratorProperties.

(** ** The executor: what an invocation leaves behind *)

Module ExecutorFrame.
Import JS Executor Spec StringFacts ExecutorFacts ExecutorProperties.

#[local] Arguments String.append !_ _ / : simpl nomatch.








(** Code that passes the filter, writes, and then throws an error object
    is answered with everything it wrote: stdout holds the console.log
    writes made before the fault, and stderr the console.error writes
    followed by the message of the error as its last line. *)
Theorem thrown_error_keeps_partial_output (js_eval : string -> behaviour)
    (steps : nat) (code : string) (w : world) (name message : string) :
  dangerous code = false ->
  duration (js_eval code) <= steps ->
  final (js_eval code) = Some (Thrown (ErrorObj name message)) ->
  evalAndCaptureOutput js_eval steps code w =
  (Returned (Result (String.concat newline (writes Out (js_eval code)))
                    (String.concat newline
                       (writes Err (js_eval code) ++ [message]))),
   after_return w).
Proof.
  intros Hd Hs Hf.
  rewrite (returns_when_caught _ _ _ _ _ (Str message) Hd Hs Hf eq_refl).
  now rewrite <- (join_strings newline (writes Err (js_eval code) ++ [message])),
    map_app.
Qed.

Lemma thrown_error_keeps_partial_output_witness :
  evalAndCaptureOutput sample_eval 2
    "console.log('partial'); throw new Error('boom')" initial
  = (Returned (Result "partial" "boom"), after_return initial).
Proof.
  apply (thrown_error_keeps_partial_output sample_eval 2
           "console.log('partial'); throw new Error('boom')" initial
           "Error" "boom").
  - reflexivity.
  - simpl. lia.
  - reflexivity.
Defined.

(** A thrown string, number or boolean has no message: when the code made
    no console.error write, the returned stderr is empty, so the result
    is the one the same writes would give without any fault. *)
Theorem thrown_primitive_leaves_no_trace (js_eval : string -> behaviour)
    (steps : nat) (code : string) (w : world) (e : value) :
  dangerous code = false ->
  duration (js_eval code) <= steps ->
  final (js_eval code) = Some (Thrown e) ->
  primitive e ->
  writes Err (js_eval code) = [] ->
  evalAndCaptureOutput js_eval steps code w =
  (Returned (Result (String.concat newline (writes Out (js_eval code))) ""),
   after_return w).
Proof.
  intros Hd Hs Hf Hp He.
  assert (Hm : get_message e = Ret Undefined) by (now destruct e).
  rewrite (returns_when_caught _ _ _ _ _ _ Hd Hs Hf Hm). now rewrite He.
Qed.

Lemma thrown_primitive_leaves_no_trace_witness :
  evalAndCaptureOutput sample_eval 1 "throw 'plain text'" initial
  = (Returned (Result "" ""), after_return initial).
Proof.
  apply (thrown_primitive_leaves_no_trace sample_eval 1 "throw 'plain text'"
           initial (Str "plain text")).
  - reflexivity.
  - simpl. lia.
  - reflexivity.
  - exact I.
  - reflexivity.
Defined.

Lemma contains_inside (s sub before after : string) :
  contains s sub -> contains (before +:+ s +:+ after) sub.
Proof.
  intros (x & y & ->). exists (before +:+ x), (y +:+ after).
  now rewrite !append_assoc.
Qed.

(** The filter reads the raw text only: a text that is rejected stays
    rejected, unevaluated, wherever it is placed inside a longer text. *)
Theorem rejected_text_is_rejected_anywhere (js_eval : string -> behaviour)
    (steps : nat) (code before after : string) (w : world) :
  dangerous code = true ->
  evalAndCaptureOutput js_eval steps (before +:+ code +:+ after) w =
  (Returned (Result "" "Potentially dangerous code detected"), after_return w).
Proof.
  intros H. apply returns_when_dangerous.
  apply dangerous_denylisted in H as (p & Hin & Hc).
  apply dangerous_denylisted. exists p. split; [exact Hin|].
  now apply contains_inside.
Qed.

Lemma rejected_text_is_rejected_anywhere_witness :
  evalAndCaptureOutput sample_eval 0
    ("// " +:+ "require('fs')" +:+ " is not used here") initial
  = (Returned (Result "" "Potentially dangerous code detected"),
     after_return initial).
Proof.
  exact (rejected_text_is_rejected_anywhere sample_eval 0 "require('fs')"
           "// " " is not used here" initial eq_refl).
Defined.

End ExecutorFrame.

(** ** The executor's route and the tool that calls it *)

Module RouteProperties.
Import JS Executor ExecutorApi Agent Transport Spec StringFacts ExecutorFacts
       ExecutorProperties.

#[local] Arguments String.append !_ _ / : simpl nomatch.

(** A request whose body has no code, or the empty string as code, is
    refused with status 400 and 'Code is required'; no invocation is
    started and the process is left as it was. *)
Theorem absent_or_empty_code_is_refused (js_eval : string -> behaviour)
    (steps : nat) (o : gmap string value) (w : world) :
  o !! "code" = None \/ o !! "code" = Some (Str "") ->
  post_root js_eval steps (read_code o) w
  = (Some (Respond 400 (ErrorBody "Code is required")), w).
Proof.
  unfold read_code, field. now intros [-> | ->].
Qed.

Lemma absent_or_empty_code_is_refused_witness :
  post_root sample_eval 10 (read_code {[ "prompt" := Str "1 + 1" ]}) initial
  = (Some (Respond 400 (ErrorBody "Code is required")), initial).
Proof.
  apply (absent_or_empty_code_is_refused sample_eval 10
           {[ "prompt" := Str "1 + 1" ]} initial).
  left. apply lookup_singleton_ne. discriminate.
Defined.

(** The only values an invocation is rejected with are the TypeErrors of
    the failed read of [message]. *)
Lemma rejected_with_type_error (js_eval : string -> behaviour) (steps : nat)
    (code : string) (w : world) (e : value) :
  fst (evalAndCaptureOutput js_eval steps code w) = Rejected e ->
  exists reason, e = ErrorObj "TypeError" reason.
Proof.
  unfold evalAndCaptureOutput.
  destruct (try_block _ _ _ _ _ _) as [[[[|thrown]|] w2] f2]; simpl;
    try discriminate.
  destruct thrown; simpl; try discriminate; intros [= <-]; eauto.
Qed.



(** Code that throws [null] makes the route answer 500 with an empty
    stdout and the TypeError of the failed catch block as stderr; what the
    code had written is not part of the answer, and the console of the
    executor stays redirected afterwards. *)
Theorem thrown_null_is_answered_500 (js_eval : string -> behaviour)
    (steps : nat) (code : string) (w : world) :
  code <> "" ->
  dangerous code = false ->
  duration (js_eval code) <= steps ->
  final (js_eval code) = Some (Thrown Null) ->
  post_root js_eval steps (Str code) w =
  (Some (Respond 500 (ResultBody (Result ""
     "Execution error: Cannot read properties of null (reading 'message')"))),
   left_captured w).
Proof.
  intros Hne Hd Hs Hf. unfold post_root. simpl evalAndCaptureOutput_value.
  assert (T : truthy (Str code) = true).
  { simpl. destruct (String.eqb code "") eqn:E; [|reflexivity].
    apply String.eqb_eq in E. contradiction. }
  rewrite T. simpl negb. cbv iota.
  now rewrite (rejects_when_unreadable _ _ _ _ Null _ Hd Hs Hf eq_refl).
Qed.

Lemma thrown_null_is_answered_500_witness :
  post_root sample_eval 1 (Str "throw null") initial =
  (Some (Respond 500 (ResultBody (Result ""
     "Execution error: Cannot read properties of null (reading 'message')"))),
   left_captured initial).
Proof.
  apply (thrown_null_is_answered_500 sample_eval 1 "throw null" initial).
  - discriminate.
  - reflexivity.
  - simpl. lia.
  - reflexivity.
Defined.

End RouteProperties.

Module ToolProperties.
Import JS Executor ExecutorApi Agent Transport Spec StringFacts ExecutorFacts
       ExecutorProperties RouteProperties.

#[local] Arguments String.append !_ _ / : simpl nomatch.

Lemma read_code_body (code : string) : read_code (code_body code) = Str code.
Proof. unfold read_code, field, code_body. now rewrite lookup_singleton_eq. Qed.

Lemma truthy_nonempty (s : string) : s <> "" -> truthy (Str s) = true.
Proof.
  intros H. simpl. destruct (String.eqb s "") eqn:E; [|reflexivity].
  apply String.eqb_eq in E. contradiction.
Qed.

(** Whenever the executor returns a result for a non-empty code string,
    the code-execution tool hands exactly that result to the agent, and
    the executor is left in the state the invocation left it in. *)
Theorem tool_returns_the_executor_result (js_eval : string -> behaviour)
    (steps : nat) (code : string) (w w' : world) (r : result) :
  code <> "" ->
  evalAndCaptureOutput js_eval steps code w = (Returned r, w') ->
  jsExecutor_on_executor js_eval steps code w = (Some (Ret (ResultBody r)), w').
Proof.
  intros Hne H. unfold jsExecutor_on_executor, post_root.
  rewrite read_code_body, truthy_nonempty by assumption.
  simpl. now rewrite H.
Qed.

Lemma tool_returns_the_executor_result_witness :
  jsExecutor_on_executor sample_eval 2 "console.log(15 * 37)" initial
  = (Some (Ret (ResultBody (Result "555" ""))), after_return initial).
Proof.
  apply (tool_returns_the_executor_result sample_eval 2 "console.log(15 * 37)"
           initial (after_return initial) (Result "555" "")).
  - discriminate.
  - reflexivity.
Defined.

(** Code the filter rejects comes back to the agent as a result with
    empty stdout and the stderr text of the rejection, unless it is the
    empty string. *)
Theorem tool_reports_the_rejection (js_eval : string -> behaviour)
    (steps : nat) (code : string) (w : world) :
  denylisted code ->
  jsExecutor_on_executor js_eval steps code w =
  (Some (Ret (ResultBody (Result "" "Potentially dangerous code detected"))),
   after_return w).
Proof.
  intros H. apply tool_returns_the_executor_result.
  - intros ->. destruct H as (p & Hin & before & after & E).
    simpl in Hin. destruct before; [|discriminate].
    destruct Hin as [<-|[<-|[<-|[<-|[]]]]]; discriminate.
  - apply returns_when_dangerous. now apply dangerous_denylisted.
Qed.

Lemma tool_reports_the_rejection_witness :
  jsExecutor_on_executor sample_eval 0 "process.exit(1)" initial =
  (Some (Ret (ResultBody (Result "" "Potentially dangerous code detected"))),
   after_return initial).
Proof.
  apply (tool_reports_the_rejection sample_eval 0 "process.exit(1)" initial).
  exists "process.exit". split; [simpl; tauto|]. now exists "", "(1)".
Defined.

(** When the executor answers with an error status, the tool reports the
    status and nothing else: the empty code string comes back as 'HTTP
    error! status: 400', and an invocation that was rejected comes back as
    'HTTP error! status: 500', the stderr text the executor sent with its
    answer being dropped. *)
Theorem tool_reports_only_the_status (js_eval : string -> behaviour)
    (steps : nat) (code : string) (w : world) :
  (code = "" ->
   jsExecutor_on_executor js_eval steps code w =
   (Some (Ret (ResultBody (Result ""
      "Error executing code: HTTP error! status: 400"))), w)) /\
  (code <> "" ->
   forall e w', evalAndCaptureOutput js_eval steps code w = (Rejected e, w') ->
   jsExecutor_on_executor js_eval steps code w =
   (Some (Ret (ResultBody (Result ""
      "Error executing code: HTTP error! status: 500"))), w')).
Proof.
  split.
  - intros ->. reflexivity.
  - intros Hne e w' H. unfold jsExecutor_on_executor, post_root.
    rewrite read_code_body, truthy_nonempty by assumption.
    simpl evalAndCaptureOutput_value. simpl negb. cbv iota. rewrite H.
    destruct (rejected_with_type_error js_eval steps code w e) as [reason ->];
      [now rewrite H|].
    reflexivity.
Qed.

Lemma tool_reports_only_the_status_witness :
  jsExecutor_on_executor sample_eval 3
    "console.log('partial'); throw undefined" initial =
  (Some (Ret (ResultBody (Result ""
     "Error executing code: HTTP error! status: 500"))), left_captured initial).
Proof.
  apply (proj2 (tool_reports_only_the_status sample_eval 3
                  "console.log('partial'); throw undefined" initial)
           ltac:(discriminate)
           (ErrorObj "TypeError"
              "Cannot read properties of undefined (reading 'message')")
           (left_captured initial)).
  reflexivity.
Defined.

End ToolProperties.

(** ** The chat route and the client that calls it *)

Module ChatProperties.
Import JS ExecutorApi Agent Transport Client Spec StringFacts AgentProperties.

#[local] Arguments String.append !_ _ / : simpl nomatch.

(** A request without a prompt, or with the empty string as prompt, is
    answered 400 'Prompt is required' whatever its thread_id; the agent
    is not invoked and no thread is created or changed. *)
Theorem absent_or_empty_prompt_is_refused
    (react : list message -> completion (list message))
    (o : gmap string value) (store : gmap string (list message)) :
  o !! "prompt" = None \/ o !! "prompt" = Some (Str "") ->
  generate react (read_generate o) store
  = (Respond 400 (ErrorBody "Prompt is required"), store).
Proof.
  unfold generate, read_generate, field. simpl. now intros [-> | ->].
Qed.

Lemma absent_or_empty_prompt_is_refused_witness :
  generate (fun _ => Ret []) (read_generate {[ "thread_id" := Str "t1" ]}) ∅
  = (Respond 400 (ErrorBody "Prompt is required"), ∅).
Proof.
  apply (absent_or_empty_prompt_is_refused (fun _ => Ret [])
           {[ "thread_id" := Str "t1" ]} ∅).
  left. apply lookup_singleton_ne. discriminate.
Defined.

(** A thread_id that is null, false, zero or the empty string is treated
    like a missing one: the request is served on the thread 'default',
    which receives the prompt and the messages of the run, and every
    other thread is left as it was. *)
Theorem falsy_thread_id_means_default_thread
    (react : list message -> completion (list message))
    (req : request) (store : gmap string (list message)) :
  truthy (prompt req) = true ->
  truthy (thread_id req) = false ->
  let store' := snd (generate react req store) in
  let seen := history store "default" ++ [Message "user" (prompt req)] in
  history store' "default" = seen ++ contributed react seen /\
  (forall other, other <> "default" -> store' !! other = store !! other).
Proof.
  intros P T. cbv zeta. rewrite generate_store by assumption.
  assert (D : thread_of req = Str "default")
    by (unfold thread_of, or_else; now rewrite T).
  rewrite agent_invoke_store, D. simpl to_string. split.
  - now rewrite history_insert.
  - intros other H. now rewrite lookup_insert_ne by congruence.
Qed.

Lemma falsy_thread_id_means_default_thread_witness :
  history
    (snd (generate (fun _ => Ret [Message "assistant" (Str "hello")])
            (Request (Str "hi") (Str "")) ∅)) "default"
  = [Message "user" (Str "hi"); Message "assistant" (Str "hello")].
Proof.
  rewrite (proj1 (falsy_thread_id_means_default_thread
                    (fun _ => Ret [Message "assistant" (Str "hello")])
                    (Request (Str "hi") (Str "")) ∅ eq_refl eq_refl)).
  reflexivity.
Defined.

(** A request with a non-empty string as thread_id is served on that
    thread and leaves every other thread, 'default' included, as it was. *)
Theorem named_thread_is_kept_apart
    (react : list message -> completion (list message))
    (req : request) (thread : string) (store : gmap string (list message)) :
  truthy (prompt req) = true ->
  thread_id req = Str thread ->
  thread <> "" ->
  let store' := snd (generate react req store) in
  let seen := history store thread ++ [Message "user" (prompt req)] in
  history store' thread = seen ++ contributed react seen /\
  (forall other, other <> thread -> history store' other = history store other).
Proof.
  intros P T Hne. cbv zeta. rewrite generate_store by assumption.
  assert (D : thread_of req = Str thread).
  { unfold thread_of, or_else. rewrite T. simpl.
    destruct (String.eqb thread "") eqn:E; [|reflexivity].
    apply String.eqb_eq in E. contradiction. }
  rewrite agent_invoke_store, D. simpl to_string. split.
  - now rewrite history_insert.
  - intros other H. now rewrite history_insert_other by congruence.
Qed.

Lemma named_thread_is_kept_apart_witness :
  history
    (snd (generate (fun _ => Ret [Message "assistant" (Str "hello")])
            (Request (Str "hi") (Str "t1"))
            {[ "default" := [Message "user" (Str "earlier")] ]})) "default"
  = [Message "user" (Str "earlier")].
Proof.
  rewrite (proj2 (named_thread_is_kept_apart
                    (fun _ => Ret [Message "assistant" (Str "hello")])
                    (Request (Str "hi") (Str "t1")) "t1"
                    {[ "default" := [Message "user" (Str "earlier")] ]}
                    eq_refl eq_refl ltac:(discriminate))
             "default" ltac:(discriminate)).
  unfold history. now rewrite lookup_singleton_eq.
Defined.

(** The status of the answer tells what happened: 400 exactly when the
    prompt is missing or falsy, 500 with 'Internal server error' exactly
    when the run of the agent threw, and otherwise 200 with a content
    that is never empty: the content of the last message of the thread,
    or 'No response generated' in its place. *)
Theorem generate_reply_by_status
    (react : list message -> completion (list message))
    (req : request) (store : gmap string (list message)) :
  let seen :=
    history store (to_string (thread_of req)) ++ [Message "user" (prompt req)] in
  match fst (generate react req store) with
  | Respond 400 b =>
      truthy (prompt req) = false /\ b = ErrorBody "Prompt is required"
  | Respond 500 b =>
      truthy (prompt req) = true /\ b = ErrorBody "Internal server error" /\
      exists e, react seen = Threw e
  | Respond 200 (ContentBody c) =>
      truthy (prompt req) = true /\ truthy c = true /\
      exists new, react seen = Ret new /\
        (c = last_content (seen ++ new) \/ c = Str "No response generated")
  | _ => False
  end.
Proof.
  cbv zeta. unfold generate, agent_invoke.
  destruct (truthy (prompt req)) eqn:P; simpl; [|now split].
  destruct (react _) as [new|e] eqn:R; simpl.
  - split; [reflexivity|]. unfold or_else.
    destruct (truthy (last_content _)) eqn:T.
    + split; [exact T|]. exists new. split; [reflexivity | now left].
    + split; [reflexivity|]. exists new. split; [reflexivity | now right].
  - split; [reflexivity|]. split; [reflexivity|]. now exists e.
Qed.

End ChatProperties.

Module ClientProperties.
Import JS ExecutorApi Agent Transport Client Spec StringFacts AgentProperties.

#[local] Arguments String.append !_ _ / : simpl nomatch.

Lemma trimStart_cases (s : string) :
  (blank s /\ trimStart s = "") \/
  (~ blank s /\ exists c rest, trimStart s = String c rest /\ is_space c = false).
Proof.
  induction s as [|c s IH]; simpl; [now left|].
  destruct (is_space c) eqn:E.
  - destruct IH as [[Hb Ht]|[Hb Ht]]; [left | right]; split; auto.
    now intros [_ H].
  - right. split; [intros [H _]; discriminate | eauto].
Qed.

(** [trim] leaves nothing exactly of the strings made of white space. *)
Lemma trim_empty_iff_blank (s : string) : trim s = "" <-> blank s.
Proof.
  unfold trim. destruct (trimStart_cases s) as [[Hb Ht]|[Hb (c & rest & Ht & Hc)]].
  - rewrite Ht. simpl. tauto.
  - rewrite Ht. simpl. rewrite Hc. simpl. split; [discriminate | contradiction].
Qed.

Lemma falsy_trim_iff_blank (s : string) :
  truthy (Str (trim s)) = false <-> blank s.
Proof.
  rewrite <- trim_empty_iff_blank. simpl. rewrite negb_false_iff.
  apply String.eqb_eq.
Qed.

(** For an input of ASCII characters: [sendMessage] does nothing at all,
    and posts no request, exactly when the input is empty or white space
    only (tab, line feed, vertical tab, form feed, carriage return,
    space), or a request is in flight. *)
Theorem nothing_is_sent_when_blank_or_loading (a : app) :
  ascii_only (inputValue a) ->
  (sendMessage_start a = None <-> blank (inputValue a) \/ isLoading a = true).
Proof.
  intros _. unfold sendMessage_start. rewrite <- falsy_trim_iff_blank.
  destruct (truthy (Str (trim (inputValue a)))); destruct (isLoading a);
    simpl; split; auto; try discriminate; intros [H|H]; discriminate.
Qed.

Lemma nothing_is_sent_when_blank_or_loading_witness :
  sendMessage_start (App [] "  " false 7) = None.
Proof.
  assert (A : ascii_only (inputValue (App [] "  " false 7))).
  { simpl. unfold nat_of_ascii. simpl. repeat split; lia. }
  assert (B : blank (inputValue (App [] "  " false 7))).
  { simpl. repeat split. }
  exact (proj2 (nothing_is_sent_when_blank_or_loading (App [] "  " false 7) A)
           (or_introl B)).
Defined.

(** While a request is in flight, and again once it has been answered, a
    further [sendMessage] posts nothing until new text is typed. *)
Theorem no_second_request_without_new_input (a waiting : app)
    (o : gmap string value) (outcome : fetch_outcome) :
  sendMessage_start a = Some (o, waiting) ->
  sendMessage_start waiting = None /\
  sendMessage_start (sendMessage_finish outcome waiting) = None.
Proof.
  unfold sendMessage_start at 1.
  destruct (negb _ || isLoading a); [discriminate|]. intros [= <- <-].
  split; reflexivity.
Qed.

Lemma no_second_request_without_new_input_witness :
  sendMessage_start
    (sendMessage_finish (NetworkFailure "Failed to fetch")
       (App [Message "user" (Str "hi")] "" true 1700000000000)) = None.
Proof.
  exact (proj2 (no_second_request_without_new_input
                  (App [] "hi" false 1700000000000)
                  (App [Message "user" (Str "hi")] "" true 1700000000000)
                  {[ "prompt" := Str "hi"; "threadId" := Num 1700000000000 ]}
                  (NetworkFailure "Failed to fetch") eq_refl)).
Defined.

Lemma sendMessage_try_throws_errors (o : fetch_outcome) (error : value) :
  sendMessage_try o = Threw error ->
  exists name reason, error = ErrorObj name reason.
Proof.
  destruct o as [m | status json]; simpl.
  - intros [= <-]. eauto.
  - destruct (response_ok status); simpl.
    + destruct json as [b | m]; intros [= <-]. eauto.
    + intros [= <-]. unfold new_Error. eauto.
Qed.

(** Every exchange adds exactly two messages to the conversation shown:
    the user's text as typed and one assistant message, whatever the
    outcome of the request; the input is cleared and the loading flag is
    off again.  After a response with an error status the assistant
    message reads 'Error: HTTP error! status: ' followed by the status. *)
Theorem exchange_adds_two_messages (a waiting : app)
    (o : gmap string value) (outcome : fetch_outcome) :
  sendMessage_start a = Some (o, waiting) ->
  let final := sendMessage_finish outcome waiting in
  exists reply,
    messages final = messages a ++ [Message "user" (Str (inputValue a)); reply] /\
    role reply = "assistant" /\
    inputValue final = "" /\
    isLoading final = false /\
    threadId final = threadId a /\
    (forall status json, outcome = HttpResponse status json ->
       response_ok status = false ->
       content reply
       = Str ("Error: HTTP error! status: " +:+ to_string (Num status))).
Proof.
  unfold sendMessage_start.
  destruct (negb _ || isLoading a); [discriminate|]. intros [= <- <-].
  cbv zeta. unfold sendMessage_finish. simpl.
  destruct (sendMessage_try outcome) as [m|error] eqn:E.
  - exists m. rewrite <- app_assoc. simpl. repeat split.
    + destruct outcome as [reason | status json]; simpl in E; [discriminate|].
      destruct (response_ok status); simpl in E; [|discriminate].
      destruct json; [|discriminate]. now injection E as <-.
    + intros status json -> Hok. simpl in E. rewrite Hok in E. discriminate.
  - destruct (sendMessage_try_throws_errors _ _ E) as (name & reason & ->).
    simpl. eexists. rewrite <- app_assoc. simpl. repeat split.
    intros status json -> Hok. simpl in E. rewrite Hok in E. simpl in E.
    now injection E as <- <-.
Qed.

Lemma exchange_adds_two_messages_witness :
  exists reply,
    messages (sendMessage_finish
                (HttpResponse 500 (Parsed (ErrorBody "Internal server error")))
                (App [Message "user" (Str "hi")] "" true 7))
    = [] ++ [Message "user" (Str "hi"); reply] /\
    content reply = Str "Error: HTTP error! status: 500".
Proof.
  destruct (exchange_adds_two_messages
              (App [] "hi" false 7)
              (App [Message "user" (Str "hi")] "" true 7)
              {[ "prompt" := Str "hi"; "threadId" := Num 7 ]}
              (HttpResponse 500 (Parsed (ErrorBody "Internal server error")))
              eq_refl)
    as (reply & Hm & _ & _ & _ & _ & Hc).
  exists reply. split; [exact Hm|].
  exact (Hc 500%Z _ eq_refl eq_refl).
Defined.

(** The client names its thread field [threadId], the route reads
    [thread_id]: every request the client posts carries the typed text as
    a non-empty prompt, is never answered 400, and is served on the thread
    'default' whatever the client's own thread number. *)
Theorem client_requests_land_on_default_thread (a waiting : app)
    (o : gmap string value)
    (react : list message -> completion (list message))
    (store : gmap string (list message)) :
  sendMessage_start a = Some (o, waiting) ->
  prompt (read_generate o) = Str (inputValue a) /\
  thread_id (read_generate o) = Undefined /\
  thread_of (read_generate o) = Str "default" /\
  (forall b, fst (generate react (read_generate o) store) <> Respond 400 b) /\
  (forall other, other <> "default" ->
     snd (generate react (read_generate o) store) !! other = store !! other).
Proof.
  unfold sendMessage_start.
  destruct (truthy (Str (trim (inputValue a)))) eqn:T; [|discriminate].
  destruct (isLoading a); [discriminate|]. simpl. intros [= <- <-].
  assert (P : field {[ "prompt" := Str (inputValue a);
                       "threadId" := Num (threadId a) ]} "prompt"
              = Str (inputValue a)).
  { unfold field. now rewrite lookup_insert_eq. }
  assert (I : field {[ "prompt" := Str (inputValue a);
                       "threadId" := Num (threadId a) ]} "thread_id"
              = Undefined).
  { unfold field. rewrite lookup_insert_ne by discriminate.
    now rewrite lookup_singleton_ne by discriminate. }
  assert (N : truthy (Str (inputValue a)) = true).
  { destruct (truthy (Str (inputValue a))) eqn:E; [reflexivity|].
    simpl in E. apply negb_false_iff, String.eqb_eq in E.
    rewrite E in T. discriminate. }
  unfold read_generate. rewrite P, I.
  assert (D : thread_of (Request (Str (inputValue a)) Undefined) = Str "default")
    by reflexivity.
  repeat split.
  - intros b. unfold generate. simpl prompt. rewrite N. simpl negb. cbv iota.
    now destruct (agent_invoke _ _ _ _) as [[ms|e] store'].
  - intros other H. rewrite generate_store by exact N.
    rewrite agent_invoke_store, D. simpl to_string.
    now rewrite lookup_insert_ne by congruence.
Qed.

Lemma client_requests_land_on_default_thread_witness :
  thread_of (read_generate
               {[ "prompt" := Str " what is 15 * 37?";
                  "threadId" := Num 1700000000000 ]})
  = Str "default".
Proof.
  exact (proj1 (proj2 (proj2
           (client_requests_land_on_default_thread
              (App [] " what is 15 * 37?" false 1700000000000)
              (App [Message "user" (Str " what is 15 * 37?")] "" true
                   1700000000000)
              {[ "prompt" := Str " what is 15 * 37?";
                 "threadId" := Num 1700000000000 ]}
              (fun _ => Ret []) ∅ eq_refl)))).
Defined.

Lemma lower_char_twice (c : ascii) : lower_char (lower_char c) = lower_char c.
Proof.
  unfold lower_char.
  destruct ((65 <=? nat_of_ascii c) && (nat_of_ascii c <=? 90)) eqn:E;
    [|now rewrite E].
  apply andb_true_iff in E as [E1 E2].
  apply Nat.leb_le in E1. apply Nat.leb_le in E2.
  rewrite nat_ascii_embedding by lia.
  replace (nat_of_ascii c + 32 <=? 90) with false
    by (symmetry; apply Nat.leb_gt; lia).
  now rewrite andb_false_r.
Qed.

Lemma toLowerCase_twice (s : string) : toLowerCase (toLowerCase s) = toLowerCase s.
Proof.
  induction s as [|c s IH]; simpl; [reflexivity|].
  now rewrite lower_char_twice, IH.
Qed.

(** Putting the query in small letters beforehand never changes the
    answer of the weather tool. *)
Theorem weather_ignores_case (query : string) :
  weatherTool (toLowerCase query) = weatherTool query.
Proof. unfold weatherTool. now rewrite toLowerCase_twice. Qed.

End ClientProperties.
